(** * Amount extraction of the voice-payment backend

    Embedding of [extract_amount] and of the endpoint [transcribe_audio]
    from [src/amt_transcription/backend.py], and the properties stated
    about them.

    Modelling conventions.
    - A transcript is a Python [str].  It is modelled as a [string] whose
      characters are the code points U+0000..U+00FF, one [ascii] per code
      point; the character classes below are Python's for that range.
    - Python integers are unbounded and modelled as [Z].  [int] is modelled
      on what the function passes to it (a non-empty run of decimal
      digits), with the interpreter's limit on conversions between
      integers and decimal strings at its default, 4300 digits: [int]
      raises [ValueError] on a longer run, and an integer of more than
      4300 digits cannot be written out as JSON.
    - Operations that can raise ([digits[0]], [int(...)],
      [words_to_numbers[word]]) return in the error monad [exc]. *)

From Stdlib Require Import Ascii String List ZArith Bool Lia.
Import ListNotations.

Local Open Scope string_scope.
Local Open Scope Z_scope.

(** ** Exceptions *)

Inductive exception : Type :=
| IndexError
| ValueError
| KeyError.

Inductive exc (A : Type) : Type :=
| Return (a : A)
| Raise (e : exception).

Arguments Return {A} a.
Arguments Raise {A} e.

Definition bind {A B : Type} (m : exc A) (k : A -> exc B) : exc B :=
  match m with
  | Return a => k a
  | Raise e => Raise e
  end.

Notation "x <- m ;; k" := (bind m (fun x => k))
  (at level 61, m at next level, right associativity).

(** ** Characters *)

Definition code (c : ascii) : Z := Z.of_N (N_of_ascii c).

Definition between (lo hi : Z) (c : ascii) : bool :=
  (lo <=? code c) && (code c <=? hi).

(** [\d] : the decimal digits. *)
Definition is_digit (c : ascii) : bool := between 48 57 c.

(** [\s], and the separators of [str.split()] : [str.isspace]. *)
Definition is_space (c : ascii) : bool :=
  between 9 13 c || between 28 32 c || (code c =? 133) || (code c =? 160).

Definition non_space (c : ascii) : bool := negb (is_space c).

(** [str.isalnum] on one character: letters and numeric characters. *)
Definition is_alnum (c : ascii) : bool :=
  between 48 57 c || between 65 90 c || between 97 122 c
  || (code c =? 170) || between 178 179 c || (code c =? 181)
  || between 185 186 c || between 188 190 c
  || between 192 214 c || between 216 246 c || between 248 255 c.

(** [\w] : alphanumeric characters and the underscore. *)
Definition is_word (c : ascii) : bool := is_alnum c || (code c =? 95).

Definition is_upper (c : ascii) : bool :=
  between 65 90 c || between 192 214 c || between 216 222 c.

Definition lower_char (c : ascii) : ascii :=
  if is_upper c then ascii_of_N (N_of_ascii c + 32) else c.

(** ** Strings *)

Fixpoint str_all (p : ascii -> bool) (s : string) : bool :=
  match s with
  | EmptyString => true
  | String c s' => p c && str_all p s'
  end.

Fixpoint str_any (p : ascii -> bool) (s : string) : bool :=
  match s with
  | EmptyString => false
  | String c s' => p c || str_any p s'
  end.

Fixpoint str_map (f : ascii -> ascii) (s : string) : string :=
  match s with
  | EmptyString => EmptyString
  | String c s' => String (f c) (str_map f s')
  end.

Fixpoint str_filter (p : ascii -> bool) (s : string) : string :=
  match s with
  | EmptyString => EmptyString
  | String c s' => if p c then String c (str_filter p s') else str_filter p s'
  end.

Definition str_nonempty (s : string) : bool :=
  match s with
  | EmptyString => false
  | String _ _ => true
  end.

(** [text.lower()] *)
Definition str_lower (s : string) : string := str_map lower_char s.

(** The run collected so far is emitted when it is not empty. *)
Definition flush (cur : string) : list string :=
  if str_nonempty cur then [cur] else [].

(** Left-to-right scan for the maximal non-empty runs of characters
    satisfying [p]; [cur] is the run being read. *)
Fixpoint scan (p : ascii -> bool) (cur : string) (s : string) : list string :=
  match s with
  | EmptyString => flush cur
  | String c s' =>
      if p c then scan p (cur ++ String c EmptyString) s'
      else flush cur ++ scan p EmptyString s'
  end.

Definition runs (p : ascii -> bool) (s : string) : list string :=
  scan p EmptyString s.

(** [re.findall(r'\d+', text)] *)
Definition re_findall_digits (text : string) : list string :=
  runs is_digit text.

(** [s.split()] : the maximal runs of non-whitespace characters. *)
Definition str_split (s : string) : list string :=
  runs non_space s.

(** [re.sub(r'[^\w\s]', '', word)] : every character that is neither a
    word character nor whitespace is deleted. *)
Definition re_sub_punct (word : string) : string :=
  str_filter (fun c => is_word c || is_space c) word.

(** ** Integers *)

Definition digit_value (c : ascii) : Z := code c - 48.

Fixpoint int_digits (acc : Z) (s : string) : exc Z :=
  match s with
  | EmptyString => Return acc
  | String c s' =>
      if is_digit c then int_digits (acc * 10 + digit_value c) s'
      else Raise ValueError
  end.

(** [sys.get_int_max_str_digits()], at its default. *)
Definition int_max_str_digits : Z := 4300.

(** [int(s)] for an unsigned decimal literal: a literal of more digits
    than the limit is refused. *)
Definition py_int (s : string) : exc Z :=
  if str_nonempty s then
    if Z.of_nat (String.length s) <=? int_max_str_digits
    then int_digits 0 s
    else Raise ValueError
  else Raise ValueError.

(** Truth value of an integer and of a list. *)
Definition truthy (n : Z) : bool := negb (n =? 0).

Definition truthy_list {A : Type} (l : list A) : bool :=
  match l with
  | [] => false
  | _ :: _ => true
  end.

(** [l[i]] *)
Definition list_getitem {A : Type} (l : list A) (i : nat) : exc A :=
  match nth_error l i with
  | Some a => Return a
  | None => Raise IndexError
  end.

(** ** Dictionaries *)

Definition dict : Type := list (string * Z).

Fixpoint dict_get (d : dict) (k : string) : option Z :=
  match d with
  | [] => None
  | (k', v) :: d' => if String.eqb k k' then Some v else dict_get d' k
  end.

(** [k in d] *)
Definition dict_contains (d : dict) (k : string) : bool :=
  match dict_get d k with
  | Some _ => true
  | None => false
  end.

(** [d[k]] *)
Definition dict_getitem (d : dict) (k : string) : exc Z :=
  match dict_get d k with
  | Some v => Return v
  | None => Raise KeyError
  end.

Definition words_to_numbers : dict :=
  [ ("zero", 0); ("one", 1); ("two", 2); ("three", 3); ("four", 4);
    ("five", 5); ("six", 6); ("seven", 7); ("eight", 8); ("nine", 9);
    ("ten", 10); ("eleven", 11); ("twelve", 12); ("thirteen", 13);
    ("fourteen", 14); ("fifteen", 15); ("sixteen", 16); ("seventeen", 17);
    ("eighteen", 18); ("nineteen", 19); ("twenty", 20); ("thirty", 30);
    ("forty", 40); ("fifty", 50); ("sixty", 60); ("seventy", 70);
    ("eighty", 80); ("ninety", 90); ("hundred", 100); ("thousand", 1000) ].

(** ** The function *)

(** The local variables that live across the loop. *)
Record locals : Type := mkLocals {
  tbl : dict;
  total : Z;
  current : Z
}.

Definition loop_body (l : locals) (word : string) : exc locals :=
  let word := re_sub_punct word in
  if dict_contains (tbl l) word then
    num <- dict_getitem (tbl l) word ;;
    if num =? 100 then
      Return (mkLocals (tbl l) (total l)
                (if truthy (current l) then current l * 100 else 100))
    else if num =? 1000 then
      let current' := (if truthy (current l) then current l else 1) * 1000 in
      Return (mkLocals (tbl l) (total l + current') 0)
    else
      Return (mkLocals (tbl l) (total l) (current l + num))
  else Return l.

Fixpoint for_words (l : locals) (words : list string) : exc locals :=
  match words with
  | [] => Return l
  | word :: rest => l' <- loop_body l word ;; for_words l' rest
  end.

Definition init_locals : locals := mkLocals words_to_numbers 0 0.

Definition finish (l : locals) : option Z :=
  let total' := total l + current l in
  if total' >? 0 then Some total' else None.

Definition extract_amount (text : string) : exc (option Z) :=
  let digits := re_findall_digits text in
  if truthy_list digits then
    d <- list_getitem digits 0 ;;
    n <- py_int d ;;
    Return (Some n)
  else
    let words := str_split (str_lower text) in
    l <- for_words init_locals words ;;
    Return (finish l).

(** ** Definitions that follow the specification's wording *)

(** Value of a decimal numeral by positional weights. *)
Fixpoint decimal_value (s : string) : Z :=
  match s with
  | EmptyString => 0
  | String c s' =>
      digit_value c * 10 ^ Z.of_nat (String.length s') + decimal_value s'
  end.

(** The accumulator rule of the word path, on the value of a table token:
    a pair (total, current). *)
Definition acc_step (st : Z * Z) (v : Z) : Z * Z :=
  let '(t, c) := st in
  if v =? 100 then (t, if c =? 0 then 100 else c * 100)
  else if v =? 1000 then (t + (if c =? 0 then 1 else c) * 1000, 0)
  else (t, c + v).

(** The rule applied to the local variables. *)
Definition apply_token (l : locals) (v : Z) : locals :=
  let st := acc_step (total l, current l) v in
  mkLocals (tbl l) (fst st) (snd st).

Definition acc_total (values : list Z) : Z :=
  let '(t, c) := fold_left acc_step values (0, 0) in t + c.

(** The values of the tokens that are present in the table, in order. *)
Fixpoint table_values (words : list string) : list Z :=
  match words with
  | [] => []
  | w :: rest =>
      match dict_get words_to_numbers (re_sub_punct w) with
      | Some v => v :: table_values rest
      | None => table_values rest
      end
  end.

(** Punctuation removal as the specification words it: every character
    that is neither alphanumeric nor whitespace is deleted. *)
Definition strip_non_alnum (word : string) : string :=
  str_filter (fun c => is_alnum c || is_space c) word.

(** First and last character tests. *)
Definition head_is (p : ascii -> bool) (s : string) : bool :=
  match s with
  | EmptyString => false
  | String c _ => p c
  end.

Fixpoint last_is (p : ascii -> bool) (s : string) : bool :=
  match s with
  | EmptyString => false
  | String c EmptyString => p c
  | String _ s' => last_is p s'
  end.

(** The position between [a] and [b] does not lie inside a run of
    [p]-characters. *)
Definition boundary (p : ascii -> bool) (a b : string) : bool :=
  negb (last_is p a && head_is p b).



(** ** Quantities of the word path *)

(** The tokens of a text as the loop sees them. *)
Definition words_of (text : string) : list string :=
  str_split (str_lower text).

(** [total] and [current] when the loop has run over the text. *)
Definition word_state (text : string) : Z * Z :=
  fold_left acc_step (table_values (words_of text)) (0, 0).

(** What the word path has accumulated at the end. *)
Definition word_amount (text : string) : Z :=
  acc_total (table_values (words_of text)).

Definition Z_sum (values : list Z) : Z := fold_right Z.add 0 values.

(** A scale word's value. *)
Definition is_scale (v : Z) : bool := (v =? 100) || (v =? 1000).

(** ** The endpoint [transcribe_audio]

    The handler calls into Flask, [tempfile], the speech model and [os].
    Those calls are not part of the source: each one is made at most once
    per request, and what it gives back is taken from an [environment],
    so that a statement about the handler holds for every behaviour of
    the libraries.  A call gives a value, fails with an exception that
    is a subclass of [Exception], seen through its [str], or aborts with
    one that is not ([SystemExit], [KeyboardInterrupt]), which
    [except Exception] lets through.  Reading [request.files], closing
    the temporary file and [print] are taken not to raise; [jsonify]
    raises when it has to write out an integer beyond the limit of
    [int_max_str_digits] digits.  The calls made and the lines printed
    are recorded in order. *)

Inductive outcome (A : Type) : Type :=
| Gives (a : A)
| Fails (msg : string)
| Aborts.

Arguments Gives {A} a.
Arguments Fails {A} msg.
Arguments Aborts {A}.

Record environment : Type := mkEnvironment {
  (** ['audio' in request.files] *)
  audio_in_files : bool;
  (** [tempfile.NamedTemporaryFile(delete=False, suffix='.wav')], through
      the [name] of the file it creates *)
  named_temporary_file : outcome string;
  (** [audio_file.save(temp_audio.name)] *)
  audio_file_save : outcome unit;
  (** [model.transcribe(temp_path, language="en")], the dictionary it
      returns through its entry ["text"], if it has one *)
  model_transcribe : outcome (option string);
  (** [os.unlink(temp_path)] *)
  os_unlink : outcome unit
}.

Inductive event : Type :=
| CallNamedTemporaryFile
| CallSave (path : string)
| CallTranscribe (path : string)
| CallUnlink (path : string)
| Stdout (line : string).

(** [jsonify({'success': True, 'text': ..., 'amount': ...})], and
    [jsonify({'error': ...}), status]. *)
Inductive response : Type :=
| JsonSuccess (text : string) (amount : option Z)
| JsonError (error : string) (status : Z).

Definition io (A : Type) : Type := (list event * outcome A)%type.

Definition io_ret {A : Type} (a : A) : io A := ([], Gives a).

Definition io_bind {A B : Type} (m : io A) (k : A -> io B) : io B :=
  match m with
  | (ev, Gives a) => let '(ev', r) := k a in ((ev ++ ev')%list, r)
  | (ev, Fails msg) => (ev, Fails msg)
  | (ev, Aborts) => (ev, Aborts)
  end.

Notation "x <~ m ;; k" := (io_bind m (fun x => k))
  (at level 61, m at next level, right associativity).

Definition call {A : Type} (e : event) (o : outcome A) : io A := ([e], o).

Definition print (line : string) : io unit := ([Stdout line], Gives tt).

(** [try: body finally: final] : [final] runs in every case, and an
    exception of [final] replaces the outcome of [body]. *)
Definition try_finally {A : Type} (body : io A) (final : io unit) : io A :=
  let '(ev, r) := body in
  match final with
  | (ev', Gives _) => ((ev ++ ev')%list, r)
  | (ev', Fails msg) => ((ev ++ ev')%list, Fails msg)
  | (ev', Aborts) => ((ev ++ ev')%list, Aborts)
  end.

(** [try: body except Exception as e: handler] *)
Definition try_except {A : Type} (body : io A) (handler : string -> io A)
  : io A :=
  match body with
  | (ev, Gives a) => (ev, Gives a)
  | (ev, Fails msg) => let '(ev', r) := handler msg in ((ev ++ ev')%list, r)
  | (ev, Aborts) => (ev, Aborts)
  end.

(** [result["text"]] *)
Definition result_text (result : option string) : io string :=
  match result with
  | Some t => io_ret t
  | None => ([], Fails "'text'")
  end.

(** [str(e)] of the [ValueError] raised when an integer of more digits
    than the limit is converted to a decimal string. *)
Definition int_to_str_limit_message : string :=
  "Exceeds the limit (4300 digits) for integer string conversion; "
  ++ "use sys.set_int_max_str_digits() to increase the limit".

(** An amount that can be written out as JSON. *)
Definition json_serialisable (amount : option Z) : bool :=
  match amount with
  | Some n => Z.abs n <? 10 ^ int_max_str_digits
  | None => true
  end.

(** [jsonify({'success': True, 'text': text, 'amount': amount})] *)
Definition jsonify_success (text : string) (amount : option Z)
  : io response :=
  if json_serialisable amount then io_ret (JsonSuccess text amount)
  else ([], Fails int_to_str_limit_message).

Definition is_unlink (e : event) : bool :=
  match e with
  | CallUnlink _ => true
  | _ => false
  end.

Section Endpoint.

(** [str(e)] for an exception of [extract_amount]. *)
Variable exception_str : exception -> string.

Definition lift_exc {A : Type} (m : exc A) : io A :=
  match m with
  | Return a => io_ret a
  | Raise e => ([], Fails (exception_str e))
  end.

Definition transcribe_audio (env : environment) : io response :=
  try_except
    (if negb (audio_in_files env) then
       io_ret (JsonError "No audio file provided" 400)
     else
       temp_path <~ (name <~ call CallNamedTemporaryFile
                               (named_temporary_file env) ;;
                     _ <~ call (CallSave name) (audio_file_save env) ;;
                     io_ret name) ;;
       try_finally
         (_ <~ print "Transcribing audio..." ;;
          result <~ call (CallTranscribe temp_path) (model_transcribe env) ;;
          transcribed_text <~ result_text result ;;
          _ <~ print ("Transcribed: " ++ transcribed_text) ;;
          amount <~ lift_exc (extract_amount transcribed_text) ;;
          jsonify_success transcribed_text amount)
         (call (CallUnlink temp_path) (os_unlink env)))
    (fun msg =>
       _ <~ print ("Error: " ++ msg) ;;
       io_ret (JsonError msg 500)).

End Endpoint.

(** ** Sample runs *)

Example ex_pay : extract_amount "pay 50 dollars" = Return (Some 50).
Proof. reflexivity. Qed.

Example ex_1250 :
  extract_amount "one thousand two hundred fifty" = Return (Some 1250).
Proof. reflexivity. Qed.

Example ex_underscore : extract_amount "twenty_ three" = Return (Some 3).
Proof. reflexivity. Qed.

Example ex_punct : extract_amount "twenty, three." = Return (Some 23).
Proof. reflexivity. Qed.

Example ex_upper : extract_amount "TWENTY" = Return (Some 20).
Proof. reflexivity. Qed.

(** ** Character facts *)

Ltac by_cases_on_char c :=
  destruct c as [[] [] [] [] [] [] [] []]; vm_compute;
  first [ reflexivity | discriminate | intros; discriminate
        | intros; reflexivity ].

Lemma lower_char_idem c : lower_char (lower_char c) = lower_char c.
Proof. by_cases_on_char c. Qed.

Lemma is_digit_lower c : is_digit (lower_char c) = is_digit c.
Proof. by_cases_on_char c. Qed.

Lemma is_space_lower c : is_space (lower_char c) = is_space c.
Proof. by_cases_on_char c. Qed.

Lemma lower_char_digit c : is_digit c = true -> lower_char c = c.
Proof. by_cases_on_char c. Qed.

Lemma space_not_digit c : is_space c = true -> is_digit c = false.
Proof. by_cases_on_char c. Qed.


(** ** String facts *)

Lemma str_app_nil_r (s : string) : s ++ "" = s.
Proof. induction s as [|c s IH]; simpl; [reflexivity | now rewrite IH]. Qed.

Lemma str_app_assoc (a b c : string) : (a ++ b) ++ c = a ++ (b ++ c).
Proof. induction a as [|x a IH]; simpl; [reflexivity | now rewrite IH]. Qed.

Lemma str_map_app f (a b : string) :
  str_map f (a ++ b) = str_map f a ++ str_map f b.
Proof. induction a as [|x a IH]; simpl; [reflexivity | now rewrite IH]. Qed.

Lemma str_lower_app (a b : string) :
  str_lower (a ++ b) = str_lower a ++ str_lower b.
Proof. apply str_map_app. Qed.

Lemma str_lower_idem (s : string) : str_lower (str_lower s) = str_lower s.
Proof.
  induction s as [|c s IH]; simpl; [reflexivity|].
  unfold str_lower in *. simpl. now rewrite lower_char_idem, IH.
Qed.

Lemma str_any_map p f (s : string) :
  (forall c, p (f c) = p c) -> str_any p (str_map f s) = str_any p s.
Proof.
  intros Hpf. induction s as [|c s IH]; simpl; [reflexivity|].
  now rewrite Hpf, IH.
Qed.

Lemma str_all_map p f (s : string) :
  (forall c, p (f c) = p c) -> str_all p (str_map f s) = str_all p s.
Proof.
  intros Hpf. induction s as [|c s IH]; simpl; [reflexivity|].
  now rewrite Hpf, IH.
Qed.

Lemma str_nonempty_map f (s : string) :
  str_nonempty (str_map f s) = str_nonempty s.
Proof. destruct s; reflexivity. Qed.

Lemma head_is_map p f (s : string) :
  (forall c, p (f c) = p c) -> head_is p (str_map f s) = head_is p s.
Proof. intros Hpf. destruct s; simpl; [reflexivity | apply Hpf]. Qed.

Lemma last_is_map p f (s : string) :
  (forall c, p (f c) = p c) -> last_is p (str_map f s) = last_is p s.
Proof.
  intros Hpf. induction s as [|c s IH]; [reflexivity|].
  destruct s as [|d s]; simpl in *; [apply Hpf | exact IH].
Qed.

Lemma last_is_snoc p (s : string) :
  str_nonempty s = true ->
  exists s' c, s = s' ++ String c "" /\ last_is p s = p c.
Proof.
  induction s as [|x s IH]; [discriminate|]. intros _.
  destruct s as [|y s].
  - exists "", x. split; reflexivity.
  - destruct (IH eq_refl) as (s' & c & Hs & Hl).
    exists (String x s'), c. split.
    + simpl. now rewrite <- Hs.
    + change (last_is p (String x (String y s))) with (last_is p (String y s)).
      exact Hl.
Qed.

Lemma str_any_false_all p (s : string) :
  str_any p s = false -> str_all (fun c => negb (p c)) s = true.
Proof.
  induction s as [|c s IH]; simpl; [reflexivity|]. intros H.
  apply orb_false_elim in H. destruct H as [Hc Hs].
  now rewrite Hc, IH.
Qed.

(** ** Facts about the scan *)

Section Scan.
Variable p : ascii -> bool.

(** A character outside [p] closes the run being read. *)
Lemma scan_sep (a b : string) (c : ascii) :
  p c = false ->
  forall cur, scan p cur (a ++ String c b) = (scan p cur a ++ runs p b)%list.
Proof.
  intros Hc. induction a as [|x a IH]; intros cur; simpl.
  - now rewrite Hc.
  - destruct (p x).
    + apply IH.
    + now rewrite IH, app_assoc.
Qed.

(** Characters outside [p] before any run contribute nothing. *)
Lemma runs_skip (s b : string) :
  str_any p s = false -> runs p (s ++ b) = runs p b.
Proof.
  unfold runs. induction s as [|x s IH]; simpl; [reflexivity|].
  intros H. apply orb_false_elim in H. destruct H as [Hx Hs].
  rewrite Hx. simpl. now apply IH.
Qed.

(** A stretch of [p]-characters is read into the current run. *)
Lemma scan_run (r b : string) :
  str_all p r = true ->
  forall cur, scan p cur (r ++ b) = scan p (cur ++ r) b.
Proof.
  induction r as [|x r IH]; intros H cur; simpl.
  - now rewrite str_app_nil_r.
  - simpl in H. apply andb_prop in H. destruct H as [Hx Hr].
    rewrite Hx, IH by assumption.
    now rewrite str_app_assoc.
Qed.

Lemma runs_nil_r (s : string) : str_any p s = false -> runs p s = [].
Proof.
  intros H. rewrite <- (str_app_nil_r s). now rewrite runs_skip.
Qed.

Lemma runs_whole (s : string) :
  str_nonempty s = true -> str_all p s = true -> runs p s = [s].
Proof.
  intros Hne Hall. unfold runs.
  rewrite <- (str_app_nil_r s) at 1. rewrite scan_run by assumption.
  simpl. unfold flush. now rewrite Hne.
Qed.

Lemma scan_head_out (cur post : string) :
  head_is p post = false -> scan p cur post = (flush cur ++ runs p post)%list.
Proof.
  destruct post as [|c post]; unfold runs; simpl; intros H.
  - unfold flush at 2. simpl. now rewrite app_nil_r.
  - rewrite H. reflexivity.
Qed.

(** The first maximal run. *)
Lemma runs_first (pre run post : string) :
  str_any p pre = false ->
  str_all p run = true ->
  str_nonempty run = true ->
  head_is p post = false ->
  runs p (pre ++ run ++ post) = run :: runs p post.
Proof.
  intros Hpre Hrun Hne Hpost.
  rewrite runs_skip by assumption. unfold runs at 1.
  rewrite scan_run by assumption. simpl.
  rewrite scan_head_out by assumption. unfold flush. now rewrite Hne.
Qed.

(** Splitting the text where no run is cut. *)
Lemma runs_boundary (a b : string) :
  boundary p a b = true -> runs p (a ++ b) = (runs p a ++ runs p b)%list.
Proof.
  unfold boundary. intros H. apply negb_true_iff in H.
  apply andb_false_iff in H. destruct H as [Ha | Hb].
  - destruct (str_nonempty a) eqn:Hne.
    + destruct (last_is_snoc p a Hne) as (a' & c & -> & Hl).
      rewrite Ha in Hl. symmetry in Hl.
      rewrite str_app_assoc. simpl. unfold runs.
      rewrite !scan_sep by assumption.
      unfold runs. simpl. now rewrite app_nil_r.
    + destruct a; [reflexivity | discriminate].
  - destruct b as [|c b].
    + rewrite str_app_nil_r. unfold runs at 3. simpl.
      now rewrite app_nil_r.
    + simpl in Hb. unfold runs. rewrite scan_sep by assumption.
      simpl. now rewrite Hb.
Qed.

(** A word put between two parts of the text, set off by characters
    outside [p], at a position that cuts no run. *)
Lemma boundary_insert (a b tok sep1 sep2 : string) :
  str_any p sep1 = false -> str_any p sep2 = false ->
  boundary p a b = true ->
  boundary p a (sep1 ++ tok) = true ->
  boundary p a (sep1 ++ tok ++ sep2 ++ b) = true.
Proof.
  unfold boundary. intros H1 H2 Hab Hat.
  destruct (last_is p a); [|reflexivity]. simpl in *.
  destruct sep1 as [|c sep1]; simpl in *.
  - destruct tok as [|d tok]; simpl in *; [|exact Hat].
    destruct sep2 as [|e sep2]; simpl in *; [exact Hab|].
    apply orb_false_elim in H2. destruct H2 as [-> _]. reflexivity.
  - apply orb_false_elim in H1. destruct H1 as [-> _]. reflexivity.
Qed.

Lemma runs_insert (a b tok sep1 sep2 : string) :
  str_any p sep1 = false -> str_any p sep2 = false ->
  boundary p a b = true ->
  boundary p a (sep1 ++ tok) = true ->
  boundary p tok (sep2 ++ b) = true ->
  runs p (a ++ sep1 ++ tok ++ sep2 ++ b)
  = (runs p a ++ runs p tok ++ runs p b)%list.
Proof.
  intros H1 H2 Hab Hat Htb.
  rewrite runs_boundary by now apply boundary_insert.
  rewrite (runs_skip sep1) by assumption.
  rewrite runs_boundary by assumption.
  now rewrite (runs_skip sep2) by assumption.
Qed.
End Scan.

(** ** Facts about [int] *)

Lemma int_digits_value (s : string) :
  str_all is_digit s = true ->
  forall acc,
    int_digits acc s
    = Return (acc * 10 ^ Z.of_nat (String.length s) + decimal_value s).
Proof.
  induction s as [|c s IH]; intros H acc.
  - simpl. f_equal. lia.
  - cbn [int_digits decimal_value String.length str_all] in *.
    apply andb_prop in H. destruct H as [Hc Hs].
    rewrite Hc, IH by assumption. f_equal.
    rewrite Nat2Z.inj_succ, Z.pow_succ_r by lia. ring.
Qed.

Lemma py_int_value (s : string) :
  str_nonempty s = true -> str_all is_digit s = true ->
  Z.of_nat (String.length s) <= int_max_str_digits ->
  py_int s = Return (decimal_value s).
Proof.
  intros Hne Hall Hlen. unfold py_int. rewrite Hne.
  apply Z.leb_le in Hlen. rewrite Hlen.
  rewrite int_digits_value by assumption. f_equal.
Qed.

Lemma py_int_too_long (s : string) :
  int_max_str_digits < Z.of_nat (String.length s) ->
  py_int s = Raise ValueError.
Proof.
  intros Hlen. unfold py_int. destruct (str_nonempty s); [|reflexivity].
  apply Z.leb_gt in Hlen. now rewrite Hlen.
Qed.


(** ** Facts about the table and the loop *)

(** One iteration is the accumulator rule on a table token and nothing on
    any other token. *)
Lemma loop_body_acc (l : locals) (w : string) :
  loop_body l w
  = Return (match dict_get (tbl l) (re_sub_punct w) with
            | Some v => apply_token l v
            | None => l
            end).
Proof.
  unfold loop_body, dict_contains, dict_getitem, apply_token.
  destruct (dict_get (tbl l) (re_sub_punct w)) as [v|]; [|reflexivity].
  simpl. unfold truthy.
  destruct (v =? 100); [destruct (current l =? 0); reflexivity|].
  destruct (v =? 1000); [destruct (current l =? 0); reflexivity|].
  reflexivity.
Qed.

Lemma for_words_acc (words : list string) :
  forall l, tbl l = words_to_numbers ->
  for_words l words
  = Return (let st := fold_left acc_step (table_values words)
                        (total l, current l) in
            mkLocals words_to_numbers (fst st) (snd st)).
Proof.
  induction words as [|w words IH]; intros l Htbl.
  - destruct l as [d t c]. simpl in *. now subst.
  - cbn [for_words table_values]. rewrite loop_body_acc, Htbl.
    destruct (dict_get words_to_numbers (re_sub_punct w)) as [v|];
      cbn [bind fold_left].
    + rewrite IH by exact Htbl. unfold apply_token. cbn [total current].
      destruct (acc_step (total l, current l) v); reflexivity.
    + now apply IH.
Qed.

(** The word path, in closed form. *)
Lemma extract_amount_words (text : string) :
  str_any is_digit text = false ->
  extract_amount text
  = Return (let total' := acc_total (table_values (str_split (str_lower text)))
            in if total' >? 0 then Some total' else None).
Proof.
  intros H. unfold extract_amount, re_findall_digits.
  rewrite (runs_nil_r _ _ H). cbn [truthy_list].
  rewrite for_words_acc by reflexivity. cbn [bind init_locals total current].
  unfold finish, acc_total. cbn [total current].
  destruct (fold_left acc_step _ (0, 0)); reflexivity.
Qed.

(** The digit path, on the first maximal run. *)
Lemma extract_amount_digits (pre run post : string) :
  str_any is_digit pre = false ->
  str_all is_digit run = true ->
  str_nonempty run = true ->
  head_is is_digit post = false ->
  Z.of_nat (String.length run) <= int_max_str_digits ->
  extract_amount (pre ++ run ++ post) = Return (Some (decimal_value run)).
Proof.
  intros Hpre Hrun Hne Hpost Hlen. unfold extract_amount, re_findall_digits.
  rewrite runs_first by assumption.
  cbn [truthy_list list_getitem nth_error bind].
  now rewrite py_int_value by assumption.
Qed.

(** The digit path on a first run beyond the limit of [int]. *)
Lemma extract_amount_digits_too_long (pre run post : string) :
  str_any is_digit pre = false ->
  str_all is_digit run = true ->
  str_nonempty run = true ->
  head_is is_digit post = false ->
  int_max_str_digits < Z.of_nat (String.length run) ->
  extract_amount (pre ++ run ++ post) = Raise ValueError.
Proof.
  intros Hpre Hrun Hne Hpost Hlen. unfold extract_amount, re_findall_digits.
  rewrite runs_first by assumption.
  cbn [truthy_list list_getitem nth_error bind].
  now rewrite py_int_too_long by assumption.
Qed.



(** A text with a digit splits around its first maximal digit run. *)
Lemma first_run_exists (p : ascii -> bool) (text : string) :
  str_any p text = true ->
  exists pre run post,
    text = pre ++ run ++ post /\
    str_any p pre = false /\
    str_all p run = true /\
    str_nonempty run = true /\
    head_is p post = false.
Proof.
  induction text as [|c text IH]; simpl; [discriminate|].
  destruct (p c) eqn:Hc; simpl.
  - intros _. destruct (str_any p text) eqn:Hany.
    + destruct (IH eq_refl) as (pre & run & post & -> & Hpre & Hrun & Hne & Hpost).
      destruct pre as [|x pre].
      * exists "", (String c run), post. simpl. rewrite Hc, Hrun. auto.
      * exists "", (String c ""), (String x pre ++ run ++ post).
        simpl in *. apply orb_false_elim in Hpre. destruct Hpre as [Hx _].
        rewrite Hc, Hx. auto.
    + exists "", (String c ""), text. simpl. rewrite Hc.
      repeat split; auto.
      destruct text as [|x text]; simpl in *; [reflexivity|].
      now apply orb_false_elim in Hany.
  - intros H. destruct (IH H) as (pre & run & post & -> & Hpre & Hrun & Hne & Hpost).
    exists (String c pre), run, post. simpl. rewrite Hc, Hpre. auto.
Qed.

Lemma fold_acc_zeros (values : list Z) :
  Forall (fun v => v = 0) values ->
  forall st, fold_left acc_step values st = st.
Proof.
  induction 1 as [|v values Hv _ IH]; intros [t c]; [reflexivity|].
  cbn [fold_left]. subst v. rewrite IH. simpl. f_equal. lia.
Qed.

Lemma table_values_zeros (words : list string) :
  Forall (fun w => dict_get words_to_numbers (re_sub_punct w) = None
                   \/ re_sub_punct w = "zero") words ->
  Forall (fun v => v = 0) (table_values words).
Proof.
  induction 1 as [|w words Hw _ IH]; cbn [table_values]; [constructor|].
  destruct (dict_get words_to_numbers (re_sub_punct w)) as [v|] eqn:E;
    [|exact IH].
  constructor; [|exact IH].
  destruct Hw as [Hw|Hw]; [discriminate|].
  rewrite Hw in E. vm_compute in E. now injection E as <-.
Qed.

(** The only character that the code's punctuation removal keeps and the
    specification's wording deletes is the underscore. *)
Lemma re_sub_punct_vs_wording (word : string) :
  str_any (fun c => code c =? 95) word = false ->
  re_sub_punct word = strip_non_alnum word.
Proof.
  unfold re_sub_punct, strip_non_alnum, is_word.
  induction word as [|c word IH]; simpl; [reflexivity|]. intros H.
  apply orb_false_elim in H. destruct H as [Hc Hw].
  rewrite Hc, orb_false_r, IH by assumption. reflexivity.
Qed.

(** ** Lowercasing and the two scans *)

Lemma scan_digit_lower (s : string) :
  forall cur, scan is_digit cur (str_lower s) = scan is_digit cur s.
Proof.
  induction s as [|c s IH]; intros cur; [reflexivity|].
  unfold str_lower in *. cbn [str_map scan].
  rewrite is_digit_lower. destruct (is_digit c) eqn:Hc.
  - rewrite (lower_char_digit c Hc). apply IH.
  - now rewrite IH.
Qed.

Lemma non_space_lower c : non_space (lower_char c) = non_space c.
Proof. unfold non_space. now rewrite is_space_lower. Qed.

Lemma boundary_lower (a b : string) :
  boundary non_space (str_lower a) (str_lower b) = boundary non_space a b.
Proof.
  unfold boundary, str_lower.
  now rewrite last_is_map, head_is_map by exact non_space_lower.
Qed.

Lemma head_is_mono (p q : ascii -> bool) (s : string) :
  (forall c, q c = true -> p c = true) ->
  head_is q s = true -> head_is p s = true.
Proof. intros Hqp. destruct s; simpl; [discriminate | apply Hqp]. Qed.

Lemma last_is_mono (p q : ascii -> bool) (s : string) :
  (forall c, q c = true -> p c = true) ->
  last_is q s = true -> last_is p s = true.
Proof.
  intros Hqp. induction s as [|c s IH]; [discriminate|].
  destruct s as [|d s]; [apply Hqp | exact IH].
Qed.

Lemma digit_non_space c : is_digit c = true -> non_space c = true.
Proof.
  unfold non_space. intros H. destruct (is_space c) eqn:Hs; [|reflexivity].
  apply space_not_digit in Hs. congruence.
Qed.

Lemma boundary_digit (a b : string) :
  boundary non_space a b = true -> boundary is_digit a b = true.
Proof.
  unfold boundary. intros H. apply negb_true_iff in H.
  apply negb_true_iff. apply andb_false_iff in H. apply andb_false_iff.
  destruct H as [H|H]; [left|right].
  - destruct (last_is is_digit a) eqn:E; [|reflexivity].
    apply (last_is_mono non_space) in E; [congruence | exact digit_non_space].
  - destruct (head_is is_digit b) eqn:E; [|reflexivity].
    apply (head_is_mono non_space) in E; [congruence | exact digit_non_space].
Qed.

Lemma spaces_no_digit (s : string) :
  str_all is_space s = true -> str_any is_digit s = false.
Proof.
  induction s as [|c s IH]; simpl; [reflexivity|]. intros H.
  apply andb_prop in H. destruct H as [Hc Hs].
  now rewrite (space_not_digit c Hc), IH.
Qed.

Lemma spaces_no_word (s : string) :
  str_all is_space s = true -> str_any non_space s = false.
Proof.
  induction s as [|c s IH]; simpl; [reflexivity|]. intros H.
  apply andb_prop in H. destruct H as [Hc Hs].
  unfold non_space at 1. now rewrite Hc, IH.
Qed.

Lemma no_space_all_word (s : string) :
  str_any is_space s = false -> str_all non_space s = true.
Proof. apply str_any_false_all. Qed.

(** Digit runs of a text into which a digit-free word has been put,
    set off by whitespace, at a position that cuts no token. *)
Lemma findall_insert (a b tok sep1 sep2 : string) :
  str_all is_space sep1 = true -> str_all is_space sep2 = true ->
  boundary non_space a b = true ->
  boundary non_space a (sep1 ++ tok) = true ->
  boundary non_space tok (sep2 ++ b) = true ->
  str_any is_digit tok = false ->
  re_findall_digits (a ++ sep1 ++ tok ++ sep2 ++ b)
  = re_findall_digits (a ++ b).
Proof.
  unfold re_findall_digits. intros H1 H2 Hab Hat Htb Htok.
  rewrite runs_insert by auto using spaces_no_digit, boundary_digit.
  rewrite (runs_nil_r _ tok Htok).
  now rewrite runs_boundary by now apply boundary_digit.
Qed.

(** Tokens of such a text. *)
Lemma split_insert (a b tok sep1 sep2 : string) :
  str_all is_space sep1 = true -> str_all is_space sep2 = true ->
  boundary non_space a b = true ->
  boundary non_space a (sep1 ++ tok) = true ->
  boundary non_space tok (sep2 ++ b) = true ->
  str_any is_space tok = false ->
  str_split (str_lower (a ++ sep1 ++ tok ++ sep2 ++ b))
  = (str_split (str_lower a)
     ++ (if str_nonempty tok then [str_lower tok] else [])
     ++ str_split (str_lower b))%list
  /\ str_split (str_lower (a ++ b))
     = (str_split (str_lower a) ++ str_split (str_lower b))%list.
Proof.
  unfold str_split. intros H1 H2 Hab Hat Htb Htok.
  assert (Hl : forall s, str_all is_space s = true ->
                         str_any non_space (str_lower s) = false).
  { intros s Hs. unfold str_lower.
    rewrite str_any_map by exact non_space_lower.
    now apply spaces_no_word. }
  split.
  - rewrite !str_lower_app.
    rewrite runs_insert;
      rewrite <- ?str_lower_app, ?boundary_lower; auto.
    f_equal. f_equal.
    destruct (str_nonempty tok) eqn:Hne.
    + apply runs_whole.
      * unfold str_lower. now rewrite str_nonempty_map.
      * unfold str_lower. rewrite str_all_map by exact non_space_lower.
        now apply no_space_all_word.
    + destruct tok; [reflexivity | discriminate].
  - rewrite str_lower_app. apply runs_boundary.
    now rewrite boundary_lower.
Qed.

Lemma table_values_app (x y : list string) :
  table_values (x ++ y) = (table_values x ++ table_values y)%list.
Proof.
  induction x as [|w x IH]; [reflexivity|].
  cbn [app table_values].
  destruct (dict_get words_to_numbers (re_sub_punct w));
    cbn [app]; now rewrite IH.
Qed.

(** ** The claims *)




(** C2. On a text without digits the result is given by the accumulator
    rule applied to the values of the table tokens in order: 100 multiplies
    a non-zero [current] by 100 and turns a zero [current] into 100; 1000
    multiplies [current] (1 when it is zero) by 1000, adds it to [total]
    and resets [current]; any other value is added to [current]; at the
    end [current] is added to [total].  The listed phrases evaluate as
    stated. *)
Theorem C2_word_path_accumulator :
  (forall text : string,
      str_any is_digit text = false ->
      extract_amount text
      = Return (let total' :=
                  acc_total (table_values (str_split (str_lower text))) in
                if total' >? 0 then Some total' else None))
  /\ extract_amount "five" = Return (Some 5)
  /\ extract_amount "twenty three" = Return (Some 23)
  /\ extract_amount "one hundred" = Return (Some 100)
  /\ extract_amount "two thousand" = Return (Some 2000)
  /\ extract_amount "one thousand two hundred fifty" = Return (Some 1250)
  /\ extract_amount "hundred" = Return (Some 100)
  /\ extract_amount "thousand" = Return (Some 1000).
Proof.
  split; [exact extract_amount_words|].
  repeat split; reflexivity.
Qed.

Lemma C2_word_path_accumulator_witness :
  str_any is_digit "Three hundred, and forty two!" = false
  /\ extract_amount "Three hundred, and forty two!" = Return (Some 342).
Proof.
  split; [reflexivity|].
  exact (proj1 C2_word_path_accumulator "Three hundred, and forty two!"
           eq_refl).
Defined.

(** C3. On a text without digits the loop ends in some values of [total]
    and [current], and the function returns their sum when it is strictly
    positive and nothing otherwise.  The empty text and ["hello world"]
    give nothing, and so does every digit-free text whose only recognised
    word is ["zero"]. *)
Theorem C3_positive_or_nothing :
  (forall text : string,
      str_any is_digit text = false ->
      exists l,
        for_words init_locals (str_split (str_lower text)) = Return l /\
        extract_amount text
        = Return (if total l + current l >? 0
                  then Some (total l + current l) else None))
  /\ (forall text : string,
         str_any is_digit text = false ->
         Forall (fun w => dict_get words_to_numbers (re_sub_punct w) = None
                          \/ re_sub_punct w = "zero")
                (str_split (str_lower text)) ->
         extract_amount text = Return None)
  /\ extract_amount "" = Return None
  /\ extract_amount "hello world" = Return None
  /\ extract_amount "zero" = Return None.
Proof.
  split; [|split; [|repeat split; reflexivity]].
  - intros text H.
    destruct (for_words init_locals (str_split (str_lower text)))
      as [l|e] eqn:E.
    + exists l. split; [reflexivity|].
      unfold extract_amount, re_findall_digits.
      rewrite (runs_nil_r _ _ H). cbn [truthy_list]. rewrite E.
      reflexivity.
    + rewrite for_words_acc in E by reflexivity. discriminate.
  - intros text H Hzero. rewrite extract_amount_words by assumption.
    unfold acc_total.
    rewrite fold_acc_zeros by now apply table_values_zeros.
    reflexivity.
Qed.

Lemma C3_positive_or_nothing_witness :
  str_any is_digit "Zero dollars, zero." = false
  /\ extract_amount "Zero dollars, zero." = Return None.
Proof.
  split; [reflexivity|].
  apply (proj1 (proj2 C3_positive_or_nothing) "Zero dollars, zero.").
  - reflexivity.
  - change (str_split (str_lower "Zero dollars, zero."))
      with ["zero"; "dollars,"; "zero."].
    repeat (apply Forall_cons;
            [first [left; reflexivity | right; reflexivity]|]).
    apply Forall_nil.
Defined.




(** C9. ["twenty-three"] is one token; removing the hyphen leaves
    ["twentythree"], which is not in the table, so nothing is found. *)
Theorem C9_hyphenated_compound_not_recognised :
  str_split (str_lower "twenty-three") = ["twenty-three"]
  /\ re_sub_punct "twenty-three" = "twentythree"
  /\ dict_contains words_to_numbers "twentythree" = false
  /\ extract_amount "twenty-three" = Return None.
Proof. repeat split; reflexivity. Qed.

(** C10. A text whose first digit run is ["0"] gives 0 (so does ["0"]
    itself), while on a text without digits every integer returned is at
    least 1. *)
Theorem C10_zero_only_from_digits :
  (forall pre post : string,
      str_any is_digit pre = false ->
      head_is is_digit post = false ->
      extract_amount (pre ++ "0" ++ post) = Return (Some 0))
  /\ extract_amount "0" = Return (Some 0)
  /\ (forall (text : string) (n : Z),
         str_any is_digit text = false ->
         extract_amount text = Return (Some n) ->
         1 <= n).
Proof.
  split; [|split; [reflexivity|]].
  - intros pre post Hpre Hpost.
    rewrite (extract_amount_digits pre "0" post);
      try assumption; try reflexivity.
    vm_compute. discriminate.
  - intros text n H. rewrite extract_amount_words by assumption. cbv zeta.
    destruct (acc_total _ >? 0) eqn:Hpos; [|discriminate].
    intros E. injection E as <-. apply Z.gtb_lt in Hpos. lia.
Qed.

Lemma C10_zero_only_from_digits_witness :
  extract_amount ("send " ++ "0" ++ " rupees") = Return (Some 0)
  /\ 1 <= 12.
Proof.
  split.
  - apply (proj1 C10_zero_only_from_digits "send " " rupees"); reflexivity.
  - apply (proj2 (proj2 C10_zero_only_from_digits) "twelve, zero" 12);
      reflexivity.
Defined.

(** C4. On the word path the text is lowercased and split at whitespace,
    and the punctuation of each token is removed before the lookup, so
    ["twenty, three."] gives 23.  The removal keeps the underscore, which
    is neither alphanumeric nor whitespace: ["twenty_"] stays as it is,
    is not found in the table, and ["twenty_ three"] gives 3 where the
    stated removal would give 23. *)
Theorem C4_underscore_survives_punctuation_removal :
  extract_amount "twenty, three." = Return (Some 23)
  /\ str_split (str_lower "twenty_ three") = ["twenty_"; "three"]
  /\ is_alnum "_"%char = false
  /\ is_space "_"%char = false
  /\ strip_non_alnum "twenty_" = "twenty"
  /\ re_sub_punct "twenty_" = "twenty_"
  /\ dict_contains words_to_numbers "twenty_" = false
  /\ extract_amount "twenty_ three" = Return (Some 3)
  /\ extract_amount "twenty three" = Return (Some 23).
Proof. repeat split; reflexivity. Qed.

(** C5. Let a text be cut at a position that lies inside no token, and
    let a word without digits and without whitespace, whose lowercased
    and punctuation-stripped form is not in the table, be put there, set
    off from what precedes and what follows by whitespace (none is needed
    at either end of the text or next to whitespace already there).  The
    result of the function is the same as on the text itself. *)
Theorem C5_unrecognised_word_is_ignored (a b tok sep1 sep2 : string) :
  boundary non_space a b = true ->
  str_all is_space sep1 = true ->
  str_all is_space sep2 = true ->
  boundary non_space a (sep1 ++ tok) = true ->
  boundary non_space tok (sep2 ++ b) = true ->
  str_any is_digit tok = false ->
  str_any is_space tok = false ->
  dict_contains words_to_numbers (re_sub_punct (str_lower tok)) = false ->
  extract_amount (a ++ sep1 ++ tok ++ sep2 ++ b) = extract_amount (a ++ b).
Proof.
  intros Hab H1 H2 Hat Htb Hdig Hsp Htab. unfold extract_amount.
  rewrite findall_insert by assumption.
  destruct (truthy_list (re_findall_digits (a ++ b))); [reflexivity|].
  destruct (split_insert a b tok sep1 sep2 H1 H2 Hab Hat Htb Hsp) as [-> ->].
  rewrite !for_words_acc by reflexivity.
  rewrite !table_values_app.
  replace (table_values (if str_nonempty tok then [str_lower tok] else []))
    with (@nil Z); [reflexivity|].
  destruct (str_nonempty tok); [|reflexivity].
  cbn [table_values]. unfold dict_contains in Htab.
  destruct (dict_get words_to_numbers (re_sub_punct (str_lower tok)));
    [discriminate | reflexivity].
Qed.

Lemma C5_unrecognised_word_is_ignored_witness :
  extract_amount ("two hundred" ++ " " ++ "Rupees," ++ "" ++ " and fifty")
  = extract_amount ("two hundred" ++ " and fifty")
  /\ extract_amount ("two hundred" ++ " " ++ "Rupees," ++ " " ++ " and fifty")
     = Return (Some 250).
Proof.
  split; [|reflexivity].
  apply (C5_unrecognised_word_is_ignored
           "two hundred" " and fifty" "Rupees," " " "");
    reflexivity.
Defined.

(** C7. The result on a text and on its lowercased form are the same; in
    particular ["TWENTY"] and ["twenty"] agree. *)
Theorem C7_case_insensitive :
  (forall text : string,
      extract_amount text = extract_amount (str_lower text))
  /\ extract_amount "TWENTY" = extract_amount "twenty".
Proof.
  split; [|reflexivity].
  intros text. unfold extract_amount, re_findall_digits, runs.
  now rewrite scan_digit_lower, str_lower_idem.
Qed.

(** ** Further facts about the accumulator *)

Lemma dict_get_In (d : dict) (k : string) (v : Z) :
  dict_get d k = Some v -> In (k, v) d.
Proof.
  induction d as [|[k' v'] d IH]; cbn [dict_get]; [discriminate|].
  destruct (String.eqb_spec k k') as [->|Hne]; intros H.
  - injection H as ->. now left.
  - right. now apply IH.
Qed.

Lemma table_nonneg (k : string) (v : Z) :
  dict_get words_to_numbers k = Some v -> 0 <= v.
Proof.
  intros H. apply dict_get_In in H.
  assert (Hall : Forall (fun kv => 0 <= snd kv) words_to_numbers)
    by (unfold words_to_numbers; repeat constructor; simpl; lia).
  rewrite Forall_forall in Hall. exact (Hall _ H).
Qed.

Lemma table_values_nonneg (words : list string) :
  Forall (fun v => 0 <= v) (table_values words).
Proof.
  induction words as [|w words IH]; cbn [table_values]; [constructor|].
  destruct (dict_get words_to_numbers (re_sub_punct w)) as [v|] eqn:E;
    [|exact IH].
  constructor; [|exact IH]. eapply table_nonneg; eassumption.
Qed.

(** One step keeps both accumulators non-negative, does not lower their
    sum, and brings the sum to at least the value read. *)
Lemma acc_step_grows (t c v : Z) :
  0 <= t -> 0 <= c -> 0 <= v ->
  0 <= fst (acc_step (t, c) v) /\ 0 <= snd (acc_step (t, c) v)
  /\ t + c <= fst (acc_step (t, c) v) + snd (acc_step (t, c) v)
  /\ v <= fst (acc_step (t, c) v) + snd (acc_step (t, c) v).
Proof.
  intros Ht Hc Hv. unfold acc_step.
  destruct (Z.eqb_spec v 100) as [->|H100].
  - destruct (Z.eqb_spec c 0); cbn [fst snd]; lia.
  - destruct (Z.eqb_spec v 1000) as [->|H1000].
    + destruct (Z.eqb_spec c 0); cbn [fst snd]; lia.
    + cbn [fst snd]. lia.
Qed.

Lemma fold_acc_grows (values : list Z) :
  Forall (fun v => 0 <= v) values ->
  forall t c, 0 <= t -> 0 <= c ->
  0 <= fst (fold_left acc_step values (t, c))
  /\ 0 <= snd (fold_left acc_step values (t, c))
  /\ t + c <= fst (fold_left acc_step values (t, c))
              + snd (fold_left acc_step values (t, c)).
Proof.
  induction 1 as [|v values Hv _ IH]; intros t c Ht Hc;
    [cbn [fold_left fst snd]; lia|].
  cbn [fold_left].
  destruct (acc_step_grows t c v Ht Hc Hv) as (H1 & H2 & H3 & _).
  destruct (acc_step (t, c) v) as [t' c']. cbn [fst snd] in *.
  destruct (IH t' c' H1 H2) as (H4 & H5 & H6). lia.
Qed.

Lemma fold_acc_zero_inv (values : list Z) :
  Forall (fun v => 0 <= v) values ->
  forall t c, 0 <= t -> 0 <= c ->
  fst (fold_left acc_step values (t, c))
  + snd (fold_left acc_step values (t, c)) = 0 ->
  Forall (fun v => v = 0) values.
Proof.
  induction 1 as [|v values Hv Hvs IH]; intros t c Ht Hc Hz;
    [constructor|].
  cbn [fold_left] in Hz.
  destruct (acc_step_grows t c v Ht Hc Hv) as (H1 & H2 & H3 & H4).
  destruct (acc_step (t, c) v) as [t' c']. cbn [fst snd] in *.
  destruct (fold_acc_grows values Hvs t' c' H1 H2) as (_ & _ & H5).
  constructor; [lia|]. now apply (IH t' c').
Qed.

(** [total] is only ever added to: a run started with some [total] is the
    run started with 0, shifted. *)
Lemma acc_step_offset (t c v : Z) :
  acc_step (t, c) v
  = (t + fst (acc_step (0, c) v), snd (acc_step (0, c) v)).
Proof.
  unfold acc_step.
  destruct (v =? 100); [cbn [fst snd]; f_equal; lia|].
  destruct (v =? 1000); cbn [fst snd]; f_equal; lia.
Qed.

Lemma fold_acc_offset (values : list Z) :
  forall t c,
    fold_left acc_step values (t, c)
    = (t + fst (fold_left acc_step values (0, c)),
       snd (fold_left acc_step values (0, c))).
Proof.
  induction values as [|v values IH]; intros t c; cbn [fold_left].
  - cbn [fst snd]. f_equal. lia.
  - rewrite (acc_step_offset t c v).
    destruct (acc_step (0, c) v) as [t1 c1]. cbn [fst snd].
    rewrite (IH (t + t1) c1), (IH t1 c1). cbn [fst snd]. f_equal. lia.
Qed.

(** Without scale words the loop only adds. *)
Lemma fold_acc_sum (values : list Z) :
  Forall (fun v => is_scale v = false) values ->
  forall t c, fold_left acc_step values (t, c) = (t, c + Z_sum values).
Proof.
  induction 1 as [|v values Hv _ IH]; intros t c; cbn [fold_left Z_sum fold_right].
  - f_equal. lia.
  - unfold is_scale in Hv. apply orb_false_elim in Hv.
    destruct Hv as [H1 H2]. unfold acc_step at 2. rewrite H1, H2.
    rewrite IH. unfold Z_sum. f_equal. lia.
Qed.

Lemma acc_total_nonneg (words : list string) :
  0 <= acc_total (table_values words).
Proof.
  unfold acc_total.
  destruct (fold_acc_grows _ (table_values_nonneg words) 0 0) as (H1 & H2 & _);
    try lia.
  destruct (fold_left acc_step (table_values words) (0, 0)).
  cbn [fst snd] in *. lia.
Qed.

(** ** Further facts about the scans *)

Lemma str_any_app p (a b : string) :
  str_any p (a ++ b) = str_any p a || str_any p b.
Proof.
  induction a as [|x a IH]; simpl; [reflexivity|].
  now rewrite IH, orb_assoc.
Qed.

Lemma runs_separated p (a sep b : string) :
  str_nonempty sep = true -> str_any p sep = false ->
  runs p (a ++ sep ++ b) = (runs p a ++ runs p b)%list.
Proof.
  destruct sep as [|c sep]; [discriminate|]. intros _ H. simpl in H.
  apply orb_false_elim in H. destruct H as [Hc Hs]. simpl.
  unfold runs at 1. rewrite scan_sep by assumption.
  now rewrite runs_skip.
Qed.

Lemma scan_skip_r p (a s : string) :
  str_any p s = false ->
  forall cur, scan p cur (a ++ s) = scan p cur a.
Proof.
  intros Hs. induction a as [|x a IH]; intros cur; simpl.
  - rewrite (scan_head_out p cur s).
    + rewrite (runs_nil_r p s Hs). apply app_nil_r.
    + destruct s as [|c s]; [reflexivity|]. simpl in *.
      now apply orb_false_elim in Hs.
  - destruct (p x); now rewrite IH.
Qed.

Lemma lower_spaces_no_word (s : string) :
  str_all is_space s = true -> str_any non_space (str_lower s) = false.
Proof.
  intros Hs. unfold str_lower.
  rewrite str_any_map by exact non_space_lower.
  now apply spaces_no_word.
Qed.

Lemma words_of_separated (a sep b : string) :
  str_nonempty sep = true -> str_all is_space sep = true ->
  words_of (a ++ sep ++ b) = (words_of a ++ words_of b)%list.
Proof.
  intros Hne Hsp. unfold words_of, str_split.
  rewrite !str_lower_app. apply runs_separated.
  - unfold str_lower. now rewrite str_nonempty_map.
  - now apply lower_spaces_no_word.
Qed.

Lemma words_of_padded (pad1 text pad2 : string) :
  str_all is_space pad1 = true -> str_all is_space pad2 = true ->
  words_of (pad1 ++ text ++ pad2) = words_of text.
Proof.
  intros H1 H2. unfold words_of, str_split. rewrite !str_lower_app.
  rewrite runs_skip by now apply lower_spaces_no_word.
  unfold runs. now rewrite scan_skip_r by now apply lower_spaces_no_word.
Qed.

Lemma findall_padded (pad1 text pad2 : string) :
  str_all is_space pad1 = true -> str_all is_space pad2 = true ->
  re_findall_digits (pad1 ++ text ++ pad2) = re_findall_digits text.
Proof.
  intros H1 H2. unfold re_findall_digits.
  rewrite runs_skip by now apply spaces_no_digit.
  unfold runs. now rewrite scan_skip_r by now apply spaces_no_digit.
Qed.

Lemma word_of_token (tok : string) :
  str_nonempty tok = true -> str_any is_space tok = false ->
  words_of tok = [str_lower tok].
Proof.
  intros Hne Hsp. unfold words_of, str_split. apply runs_whole.
  - unfold str_lower. now rewrite str_nonempty_map.
  - unfold str_lower. rewrite str_all_map by exact non_space_lower.
    now apply no_space_all_word.
Qed.

Lemma extract_amount_word_amount (text : string) :
  str_any is_digit text = false ->
  extract_amount text
  = Return (if word_amount text >? 0 then Some (word_amount text) else None).
Proof. exact (extract_amount_words text). Qed.

(** ** Further properties of [extract_amount] *)

(** X1. The function finds nothing exactly when the text has no digit and
    every token that is in the table has the value 0. *)
Theorem not_found_iff_no_digit_and_only_zero (text : string) :
  extract_amount text = Return None
  <-> str_any is_digit text = false
      /\ Forall (fun v => v = 0) (table_values (words_of text)).
Proof.
  split.
  - intros H. destruct (str_any is_digit text) eqn:Hdigit.
    + destruct (first_run_exists _ _ Hdigit)
        as (pre & run & post & -> & Hpre & Hrun & Hne & Hpost).
      destruct (Z.le_gt_cases (Z.of_nat (String.length run))
                  int_max_str_digits) as [Hlen|Hlen].
      * rewrite extract_amount_digits in H by assumption. discriminate.
      * rewrite extract_amount_digits_too_long in H by assumption.
        discriminate.
    + split; [reflexivity|].
      rewrite extract_amount_words in H by assumption. cbv zeta in H.
      fold (words_of text) in H.
      pose proof (acc_total_nonneg (words_of text)) as Hge.
      destruct (acc_total (table_values (words_of text)) >? 0) eqn:Hpos;
        [discriminate|].
      assert (Hz : acc_total (table_values (words_of text)) = 0).
      { destruct (Z.gtb_spec (acc_total (table_values (words_of text))) 0);
          [discriminate | lia]. }
      unfold acc_total in Hz.
      apply (fold_acc_zero_inv _ (table_values_nonneg _) 0 0); try lia.
      destruct (fold_left acc_step (table_values (words_of text)) (0, 0)).
      exact Hz.
  - intros [Hdigit Hzero]. rewrite extract_amount_words by assumption.
    fold (words_of text). unfold acc_total.
    rewrite fold_acc_zeros by assumption. reflexivity.
Qed.

Lemma not_found_iff_no_digit_and_only_zero_witness :
  str_any is_digit "zero rupees" = false
  /\ Forall (fun v => v = 0) (table_values (words_of "zero rupees")).
Proof.
  exact (proj1 (not_found_iff_no_digit_and_only_zero "zero rupees") eq_refl).
Defined.

(** X2. On a text without digits in which no token is a scale word
    (value 100 or 1000), the result is the sum of the values of the tokens
    that are in the table, when that sum is positive: the words are
    added, in whatever order they come. *)
Theorem no_scale_word_gives_sum (text : string) :
  str_any is_digit text = false ->
  Forall (fun v => is_scale v = false) (table_values (words_of text)) ->
  extract_amount text
  = Return (let s := Z_sum (table_values (words_of text)) in
            if s >? 0 then Some s else None).
Proof.
  intros Hdigit Hscale. rewrite extract_amount_words by assumption.
  fold (words_of text). unfold acc_total.
  rewrite fold_acc_sum by assumption. reflexivity.
Qed.

Lemma no_scale_word_gives_sum_witness :
  extract_amount "one two three" = Return (Some 6).
Proof.
  apply (no_scale_word_gives_sum "one two three"); [reflexivity|].
  repeat constructor.
Defined.

(** X3. A token that reads as "thousand" closes a group: on texts without
    digits, what precedes it contributes its [total] plus its [current]
    (1 when that is 0) times 1000, and what follows it is evaluated on its
    own and added. *)
Theorem thousand_closes_group (a sep1 tok sep2 b : string) :
  str_any is_digit a = false ->
  str_any is_digit b = false ->
  str_any is_digit tok = false ->
  str_nonempty sep1 = true -> str_all is_space sep1 = true ->
  str_nonempty sep2 = true -> str_all is_space sep2 = true ->
  str_nonempty tok = true -> str_any is_space tok = false ->
  dict_get words_to_numbers (re_sub_punct (str_lower tok)) = Some 1000 ->
  extract_amount (a ++ sep1 ++ tok ++ sep2 ++ b)
  = Return (Some (fst (word_state a)
                  + (if snd (word_state a) =? 0 then 1
                     else snd (word_state a)) * 1000
                  + word_amount b)).
Proof.
  intros Ha Hb Ht Hne1 Hsp1 Hne2 Hsp2 Hnet Hspt Hthousand.
  rewrite extract_amount_words.
  2:{ rewrite !str_any_app, Ha, Hb, Ht.
      now rewrite !spaces_no_digit by assumption. }
  fold (words_of (a ++ sep1 ++ tok ++ sep2 ++ b)).
  rewrite !words_of_separated by assumption.
  rewrite (word_of_token tok) by assumption.
  rewrite !table_values_app. cbn [table_values]. rewrite Hthousand.
  unfold acc_total, word_state, word_amount, acc_total.
  rewrite fold_left_app. cbn [app fold_left].
  destruct (fold_acc_grows _ (table_values_nonneg (words_of a)) 0 0)
    as (Hta & Hca & _); try lia.
  destruct (fold_left acc_step (table_values (words_of a)) (0, 0))
    as [ta ca].
  cbn [fst snd] in *.
  replace (acc_step (ta, ca) 1000)
    with (ta + (if ca =? 0 then 1 else ca) * 1000, 0) by reflexivity.
  rewrite fold_acc_offset.
  pose proof (acc_total_nonneg (words_of b)) as Hvb. unfold acc_total in Hvb.
  destruct (fold_left acc_step (table_values (words_of b)) (0, 0))
    as [tb cb].
  cbn [fst snd].
  assert (Hk : 1 <= (if ca =? 0 then 1 else ca))
    by (destruct (Z.eqb_spec ca 0); lia).
  match goal with
  | |- context [?x >? 0] => destruct (Z.gtb_spec x 0) as [_|Hle]; [|nia]
  end.
  do 2 f_equal. lia.
Qed.

Lemma thousand_closes_group_witness :
  extract_amount ("twenty one" ++ " " ++ "Thousand," ++ " " ++ "three hundred")
  = Return (Some 21300).
Proof.
  apply (thousand_closes_group "twenty one" " " "Thousand," " "
           "three hundred"); reflexivity.
Defined.

(** X4. Whitespace before and after the text does not change the
    result. *)
Theorem surrounding_whitespace_is_ignored (pad1 text pad2 : string) :
  str_all is_space pad1 = true ->
  str_all is_space pad2 = true ->
  extract_amount (pad1 ++ text ++ pad2) = extract_amount text.
Proof.
  intros H1 H2. unfold extract_amount.
  rewrite findall_padded by assumption.
  fold (words_of (pad1 ++ text ++ pad2)). fold (words_of text).
  now rewrite words_of_padded by assumption.
Qed.

Lemma surrounding_whitespace_is_ignored_witness :
  extract_amount (" " ++ "Two hundred rupees." ++ "  ")
  = extract_amount "Two hundred rupees."
  /\ extract_amount "Two hundred rupees." = Return (Some 200).
Proof.
  split; [|reflexivity].
  apply (surrounding_whitespace_is_ignored " " "Two hundred rupees." "  ");
    reflexivity.
Defined.

(** X5. On texts without digits, saying more never lowers the amount:
    when a text gives an amount, the text followed by whitespace and
    further words gives an amount that is at least as large. *)
Theorem more_words_never_lower_the_amount (a sep b : string) (n : Z) :
  str_any is_digit a = false ->
  str_any is_digit b = false ->
  str_nonempty sep = true -> str_all is_space sep = true ->
  extract_amount a = Return (Some n) ->
  exists m, extract_amount (a ++ sep ++ b) = Return (Some m) /\ n <= m.
Proof.
  intros Ha Hb Hne Hsp.
  rewrite (extract_amount_word_amount a Ha).
  rewrite extract_amount_word_amount.
  2:{ rewrite !str_any_app, Ha, Hb. now rewrite spaces_no_digit. }
  unfold word_amount. rewrite words_of_separated by assumption.
  rewrite table_values_app. unfold acc_total. rewrite fold_left_app.
  destruct (fold_acc_grows _ (table_values_nonneg (words_of a)) 0 0)
    as (Hta & Hca & _); try lia.
  destruct (fold_left acc_step (table_values (words_of a)) (0, 0))
    as [ta ca].
  cbn [fst snd] in *.
  destruct (fold_acc_grows _ (table_values_nonneg (words_of b)) ta ca Hta Hca)
    as (_ & _ & Hgrow).
  destruct (fold_left acc_step (table_values (words_of b)) (ta, ca))
    as [t c].
  cbn [fst snd] in *.
  destruct (Z.gtb_spec (ta + ca) 0) as [Hpos|]; [|discriminate].
  intros E. injection E as <-.
  exists (t + c). split; [|lia].
  destruct (Z.gtb_spec (t + c) 0); [reflexivity | lia].
Qed.

Lemma more_words_never_lower_the_amount_witness :
  exists m,
    extract_amount ("two hundred" ++ " " ++ "hundred and one")
    = Return (Some m) /\ 200 <= m.
Proof.
  apply (more_words_never_lower_the_amount "two hundred" " "
           "hundred and one" 200); reflexivity.
Defined.

(** ** Punctuation removed from the whole text *)

Lemma str_filter_app p (a b : string) :
  str_filter p (a ++ b) = str_filter p a ++ str_filter p b.
Proof.
  induction a as [|x a IH]; simpl; [reflexivity|].
  destruct (p x); simpl; now rewrite IH.
Qed.

Lemma str_filter_idem p (s : string) :
  str_filter p (str_filter p s) = str_filter p s.
Proof.
  induction s as [|x s IH]; simpl; [reflexivity|].
  destruct (p x) eqn:Hx; simpl; [rewrite Hx|]; now rewrite IH.
Qed.

Lemma str_filter_no_digit p (s : string) :
  str_any is_digit s = false -> str_any is_digit (str_filter p s) = false.
Proof.
  induction s as [|x s IH]; simpl; [reflexivity|]. intros H.
  apply orb_false_elim in H. destruct H as [Hx Hs].
  destruct (p x); simpl; [rewrite Hx|]; now apply IH.
Qed.

Lemma str_filter_lower p (s : string) :
  (forall c, p (lower_char c) = p c) ->
  str_lower (str_filter p s) = str_filter p (str_lower s).
Proof.
  intros Hp. unfold str_lower.
  induction s as [|x s IH]; simpl; [reflexivity|].
  rewrite Hp. destruct (p x); simpl; now rewrite IH.
Qed.

Lemma kept_lower c :
  is_word (lower_char c) || is_space (lower_char c)
  = is_word c || is_space c.
Proof. by_cases_on_char c. Qed.

Lemma kept_separator c :
  non_space c = false -> is_word c || is_space c = true.
Proof.
  unfold non_space. intros H. apply negb_false_iff in H.
  rewrite H. apply orb_true_r.
Qed.

Lemma flush_filter p (cur : string) :
  flush (str_filter p cur)
  = filter str_nonempty (map (str_filter p) (flush cur)).
Proof.
  unfold flush. destruct cur as [|x cur]; [reflexivity|].
  cbn [str_nonempty map filter].
  destruct (str_nonempty (str_filter p (String x cur))); reflexivity.
Qed.

(** Tokens of a text from which the characters outside [p] have been
    deleted, when [p] holds of every separator: the tokens of the text,
    each with those characters deleted, without the ones left empty. *)
Lemma scan_filter p (s : string) :
  (forall c, non_space c = false -> p c = true) ->
  forall cur,
    scan non_space (str_filter p cur) (str_filter p s)
    = filter str_nonempty (map (str_filter p) (scan non_space cur s)).
Proof.
  intros Hsep. induction s as [|x s IH]; intros cur.
  - apply flush_filter.
  - cbn [scan str_filter]. destruct (non_space x) eqn:Hx.
    + rewrite <- IH, str_filter_app. cbn [str_filter].
      destruct (p x); cbn [scan].
      * now rewrite Hx.
      * now rewrite str_app_nil_r.
    + rewrite (Hsep x Hx). cbn [scan]. rewrite Hx.
      rewrite map_app, filter_app, <- flush_filter.
      f_equal. apply (IH "").
Qed.

Lemma table_values_stripped (words : list string) :
  table_values (filter str_nonempty (map re_sub_punct words))
  = table_values words.
Proof.
  induction words as [|w words IH]; [reflexivity|].
  cbn [map filter table_values].
  destruct (str_nonempty (re_sub_punct w)) eqn:Hne.
  - cbn [table_values]. unfold re_sub_punct at 1.
    rewrite str_filter_idem. fold (re_sub_punct w). now rewrite IH.
  - destruct (re_sub_punct w); [|discriminate].
    now rewrite IH.
Qed.

(** X6. On a text without digits, deleting the punctuation from the whole
    text beforehand does not change the result. *)
Theorem punctuation_free_text_gives_same_amount (text : string) :
  str_any is_digit text = false ->
  extract_amount (re_sub_punct text) = extract_amount text.
Proof.
  intros Hdigit.
  assert (E : table_values (str_split (str_lower (re_sub_punct text)))
              = table_values (str_split (str_lower text))).
  { unfold re_sub_punct at 1.
    rewrite str_filter_lower by exact kept_lower.
    unfold str_split, runs.
    pose proof (scan_filter _ (str_lower text) kept_separator "") as Hs.
    cbn [str_filter] in Hs. rewrite Hs.
    apply table_values_stripped. }
  rewrite !extract_amount_words
    by (try apply str_filter_no_digit; assumption).
  now rewrite E.
Qed.

Lemma punctuation_free_text_gives_same_amount_witness :
  extract_amount (re_sub_punct "Twenty - three, please!")
  = extract_amount "Twenty - three, please!"
  /\ re_sub_punct "Twenty - three, please!" = "Twenty  three please".
Proof.
  split; [|reflexivity].
  apply (punctuation_free_text_gives_same_amount "Twenty - three, please!").
  reflexivity.
Defined.

(** ** The endpoint *)


Ltac run_handler :=
  cbv beta iota zeta delta
    [transcribe_audio try_except try_finally io_bind call print io_ret
     result_text lift_exc jsonify_success audio_in_files
     named_temporary_file audio_file_save model_transcribe os_unlink negb
     app fst snd filter is_unlink].

Ltac each_environment env :=
  destruct env as [[|] [p|m1|] [[]|m2|] [[t|]|m3|] [[]|m4|]].

(** The cases of the extraction and of the serialisation of its result,
    where the handler gets that far. *)
Ltac each_extraction t :=
  try (destruct (extract_amount t) as [r|e] eqn:E; run_handler;
       try (destruct (json_serialisable r) eqn:J; run_handler)).

(** X7. [os.unlink] is called exactly when the upload has been saved, once
    and on the temporary file, whatever the transcription then does; when
    saving fails the temporary file has been created and is not
    removed. *)
Theorem unlink_called_iff_upload_saved
  (exception_str : exception -> string) (env : environment) :
  filter is_unlink (fst (transcribe_audio exception_str env))
  = match audio_in_files env, named_temporary_file env,
          audio_file_save env with
    | true, Gives path, Gives _ => [CallUnlink path]
    | _, _, _ => []
    end.
Proof.
  each_environment env; run_handler; try reflexivity;
    each_extraction t; reflexivity.
Qed.



(** X9. The handler answers 400 exactly when the upload is missing, with
    the message of the source, and then it has called nothing and
    printed nothing; the message of every 500 answer is the last line
    printed, after ["Error: "]. *)
Theorem missing_upload_is_the_only_400
  (exception_str : exception -> string) (env : environment) :
  (forall error,
      snd (transcribe_audio exception_str env) = Gives (JsonError error 400)
      <-> audio_in_files env = false /\ error = "No audio file provided")
  /\ (audio_in_files env = false ->
      fst (transcribe_audio exception_str env) = [])
  /\ (forall error,
         snd (transcribe_audio exception_str env)
         = Gives (JsonError error 500) ->
         exists before,
           fst (transcribe_audio exception_str env)
           = (before ++ [Stdout ("Error: " ++ error)])%list).
Proof.
  assert (Hlast : forall (l : list event) (x : event),
             exists before, (l ++ [x])%list = (before ++ [x])%list)
    by (intros l x; now exists l).
  each_environment env; run_handler; each_extraction t;
    (split; [|split]);
    try (intros error; split;
         [ intros H; try discriminate; injection H as <-; now split
         | intros [H ->]; try discriminate; reflexivity ]);
    try (intros H; try discriminate; reflexivity);
    intros error H; try discriminate; injection H as <-;
    first [ apply (Hlast [])
          | apply (Hlast [_])
          | apply (Hlast [_; _])
          | apply (Hlast [_; _; _])
          | apply (Hlast [_; _; _; _])
          | apply (Hlast [_; _; _; _; _])
          | apply (Hlast [_; _; _; _; _; _]) ].
Qed.

Lemma missing_upload_is_the_only_400_witness :
  fst (transcribe_audio (fun _ => "")
         (mkEnvironment false Aborts Aborts Aborts Aborts)) = []
  /\ exists before,
       fst (transcribe_audio (fun _ => "")
              (mkEnvironment true (Gives "/tmp/tmpab12.wav") (Gives tt)
                 (Fails "cannot decode audio") (Gives tt)))
       = (before ++ [Stdout ("Error: " ++ "cannot decode audio")])%list.
Proof.
  split.
  - apply (proj1 (proj2 (missing_upload_is_the_only_400 (fun _ => "")
                           (mkEnvironment false Aborts Aborts Aborts
                              Aborts)))).
    reflexivity.
  - apply (proj2 (proj2 (missing_upload_is_the_only_400 (fun _ => "")
                           (mkEnvironment true (Gives "/tmp/tmpab12.wav")
                              (Gives tt) (Fails "cannot decode audio")
                              (Gives tt))))).
    reflexivity.
Defined.





(** ** A scale word at the end *)

(** X12. A last token that reads as "hundred" multiplies the group being
    built by 100 (or stands for 100 when that group is empty) and leaves
    the thousands already counted as they are. *)
Theorem trailing_hundred_scales_current_group (a sep tok : string) :
  str_any is_digit a = false ->
  str_any is_digit tok = false ->
  str_nonempty sep = true -> str_all is_space sep = true ->
  str_nonempty tok = true -> str_any is_space tok = false ->
  dict_get words_to_numbers (re_sub_punct (str_lower tok)) = Some 100 ->
  extract_amount (a ++ sep ++ tok)
  = Return (Some (fst (word_state a)
                  + (if snd (word_state a) =? 0 then 100
                     else snd (word_state a) * 100))).
Proof.
  intros Ha Ht Hne Hsp Hnet Hspt Hhundred.
  rewrite extract_amount_words.
  2:{ rewrite !str_any_app, Ha, Ht. now rewrite spaces_no_digit. }
  fold (words_of (a ++ sep ++ tok)).
  rewrite words_of_separated by assumption.
  rewrite (word_of_token tok) by assumption.
  rewrite table_values_app. cbn [table_values]. rewrite Hhundred.
  unfold acc_total, word_state. rewrite fold_left_app. cbn [fold_left].
  destruct (fold_acc_grows _ (table_values_nonneg (words_of a)) 0 0)
    as (Hta & Hca & _); try lia.
  destruct (fold_left acc_step (table_values (words_of a)) (0, 0))
    as [ta ca].
  cbn [fst snd] in *.
  replace (acc_step (ta, ca) 100)
    with (ta, if ca =? 0 then 100 else ca * 100) by reflexivity.
  assert (Hk : 100 <= (if ca =? 0 then 100 else ca * 100))
    by (destruct (Z.eqb_spec ca 0); lia).
  match goal with
  | |- context [?x >? 0] => destruct (Z.gtb_spec x 0) as [_|Hle]; [|lia]
  end.
  reflexivity.
Qed.

Lemma trailing_hundred_scales_current_group_witness :
  extract_amount ("one thousand two" ++ " " ++ "HUNDRED.")
  = Return (Some 1200).
Proof.
  apply (trailing_hundred_scales_current_group "one thousand two" " "
           "HUNDRED."); reflexivity.
Defined.
